(** * Verification of the translation-tag type generator and of the
      double-line transaction details row

    Sources embedded here:
    - [scripts/codegen-translations.js]: reads a language file, flattens the
      keys under its [translation] property into tags and writes a TypeScript
      declaration of the union of all tags;
    - [src/screens/transaction-details/components/DoubleLineTransactionDetailsRow.tsx]:
      a stateless React row.

    JavaScript strings are sequences of UTF-16 code units and [.length]
    counts code units, so a string is a [list] of code units here; literals
    of the source are written with [lit].  Objects are the list of their
    enumerable own properties in the order in which [for ... in] visits
    them. *)

From Stdlib Require Import List NArith Ascii String DecimalString DecimalNat.
From Stdlib Require Import Bool Arith Lia.
From Stdlib Require Import PrimFloat.
Import ListNotations.

(** ** JavaScript strings and values *)

Module JS.

Definition code_unit := N.
Definition jsstring := list code_unit.

(** A literal of the source text. *)
Definition lit (s : string) : jsstring :=
  map N_of_ascii (list_ascii_of_string s).

(** The line feed of a template literal that spans lines. *)
Definition NL : jsstring := [10%N].

(** [a === b] on strings. *)
Fixpoint jsstring_eqb (a b : jsstring) : bool :=
  match a, b with
  | [], [] => true
  | x :: a', y :: b' => N.eqb x y && jsstring_eqb a' b'
  | _, _ => false
  end.

(** [Array.prototype.join] on an array of strings. *)
Fixpoint join (sep : jsstring) (parts : list jsstring) : jsstring :=
  match parts with
  | [] => []
  | p :: rest =>
      match rest with
      | [] => p
      | _ :: _ => p ++ sep ++ join sep rest
      end
  end.

(** The property name of an array index or of a string index: its decimal
    numeral. *)
Definition index_key (i : nat) : jsstring :=
  lit (NilEmpty.string_of_uint (Nat.to_uint i)).

(** The values that [JSON.parse] and a property access can give.  The
    payload of a number is carried along and never inspected. *)
#[local] Unset Elimination Schemes.
Inductive value : Type :=
| VUndefined : value
| VNull : value
| VBoolean : bool -> value
| VNumber : float -> value
| VString : jsstring -> value
| VArray : list value -> value
| VObject : list (jsstring * value) -> value.
#[local] Set Elimination Schemes.

(** The [typeof] operator. *)
Definition typeof (v : value) : jsstring :=
  match v with
  | VUndefined => lit "undefined"
  | VNull => lit "object"
  | VBoolean _ => lit "boolean"
  | VNumber _ => lit "number"
  | VString _ => lit "string"
  | VArray _ => lit "object"
  | VObject _ => lit "object"
  end.

(** Indices paired with elements, counting from [i]. *)
Fixpoint indexed_from (i : nat) (items : list value)
  : list (jsstring * value) :=
  match items with
  | [] => []
  | v :: rest => (index_key i, v) :: indexed_from (S i) rest
  end.

(** What [for (let key in object)] visits, each key with [object[key]]:
    the properties of an object, the indices of an array, the indices of
    a string (each holding a one-unit string); nothing for [null],
    [undefined], a number or a boolean. *)
Definition entries (object : value) : list (jsstring * value) :=
  match object with
  | VObject props => props
  | VArray items => indexed_from 0 items
  | VString s => indexed_from 0 (map (fun c => VString [c]) s)
  | _ => []
  end.

(** [object[key]] on the property list: the first property of that name,
    [undefined] when there is none. *)
Fixpoint get_prop (props : list (jsstring * value)) (key : jsstring)
  : value :=
  match props with
  | [] => VUndefined
  | (k, v) :: rest => if jsstring_eqb k key then v else get_prop rest key
  end.

End JS.

Import JS.

(** ** scripts/codegen-translations.js *)

Module Codegen.

Definition tag := list jsstring.

Definition maxLineLength : nat := 80.

Definition generateArrayRepresentationForTag (tagAsArray : tag) : jsstring :=
  let stringRepresentations :=
    map (fun component => lit "'" ++ component ++ lit "'") tagAsArray in
  let oneLineAttempt :=
    lit "  | [" ++ join (lit ", ") stringRepresentations ++ lit "]" in
  if List.length oneLineAttempt <=? maxLineLength then oneLineAttempt
  else
    let multiLineAttempt :=
      lit "  | [" ++ NL ++
      lit "      " ++
        join (lit "," ++ NL ++ lit "      ") stringRepresentations ++ NL ++
      lit "    ]" in
    multiLineAttempt.

Definition generateTypeForTag (tagAsArray : tag) : jsstring :=
  NL ++
  lit "  | '" ++ join (lit ".") tagAsArray ++ lit "'" ++ NL ++
  generateArrayRepresentationForTag tagAsArray.

(** [languageFilename] is the module-level constant
    [process.argv[2] ?? 'en_US.json']. *)
Definition languageFilename (argv2 : option jsstring) : jsstring :=
  match argv2 with
  | Some name => name
  | None => lit "en_US.json"
  end.

Definition generateDeclaration (languageFilename : jsstring)
  (validTagsAsArrays : list tag) : jsstring :=
  lit "// This file was automatically generated by running `yarn codegen-translations`" ++ NL ++
  lit "// using the language file named `" ++ languageFilename ++ lit "`." ++ NL ++
  lit "//" ++ NL ++
  lit "// To regenerate this file, re-execute the `yarn codegen-translations` script." ++ NL ++
  NL ++
  lit "import { TranslateOptions } from 'i18n-js';" ++ NL ++
  NL ++
  lit "declare module 'i18n-js' {" ++ NL ++
  lit "  function t(scope: ValidScope, options?: TranslateOptions): string;" ++ NL ++
  lit "}" ++ NL ++
  NL ++
  lit "type ValidScope =" ++
    join [] (map generateTypeForTag validTagsAsArrays) ++ lit ";" ++ NL.

(** [keysArray] is mutated by [push]; the updated array is returned.  The
    three loops are the one [for ... in] of the source on an object, on an
    array and on a string. *)
Fixpoint pushNestedKeysAsArrays (keysArray : list tag) (object : value)
  (prefixArray : tag) {struct object} : list tag :=
  match object with
  | VObject props =>
      (fix loop (ps : list (jsstring * value)) (keysArray : list tag)
         : list tag :=
         match ps with
         | [] => keysArray
         | (key, child) :: rest =>
             let keyRepresentation := prefixArray ++ [key] in
             let keysArray := keysArray ++ [keyRepresentation] in
             loop rest
               (if jsstring_eqb (typeof child) (lit "object")
                then pushNestedKeysAsArrays keysArray child keyRepresentation
                else keysArray)
         end) props keysArray
  | VArray items =>
      (fix loop (i : nat) (vs : list value) (keysArray : list tag)
         : list tag :=
         match vs with
         | [] => keysArray
         | child :: rest =>
             let keyRepresentation := prefixArray ++ [index_key i] in
             let keysArray := keysArray ++ [keyRepresentation] in
             loop (S i) rest
               (if jsstring_eqb (typeof child) (lit "object")
                then pushNestedKeysAsArrays keysArray child keyRepresentation
                else keysArray)
         end) 0 items keysArray
  | VString s =>
      (* every [object[key]] is a string: [typeof] is never ['object'] *)
      fold_left
        (fun keysArray kv => keysArray ++ [prefixArray ++ [fst kv]])
        (entries (VString s)) keysArray
  | _ => keysArray
  end.

(** *** The file system and the run *)

Inductive error : Type :=
| SystemError : jsstring -> error
    (* [fs]: the error with that [code]: ENOENT, EISDIR, EACCES, ... *)
| SyntaxError   (* [JSON.parse]: not JSON *)
| TypeError.    (* property access on [null] or [undefined] *)

Inductive result (A : Type) : Type :=
| Ok : A -> result A
| Throw : error -> result A.
Arguments Ok {A} _.
Arguments Throw {A} _.

(** The files that can be read: resolved path to contents.  A path with no
    entry cannot be read, whatever the reason (no such file, a directory,
    no permission). *)
Definition fs := jsstring -> option jsstring.

(** A computation on the file system that may throw. *)
Definition M (A : Type) := fs -> result A * fs.

Definition bind {A B} (m : M A) (k : A -> M B) : M B :=
  fun s =>
    match m s with
    | (Ok a, s') => k a s'
    | (Throw e, s') => (Throw e, s')
    end.
Definition lift {A} (r : result A) : M A := fun s => (r, s).

Notation "x <- m ;; k" := (bind m (fun x => k))
  (at level 61, m at next level, right associativity).

(** [parsed['translation']]. *)
Definition get_translation (parsed : value) : result value :=
  match parsed with
  | VUndefined | VNull => Throw TypeError
  | VObject props => Ok (get_prop props (lit "translation"))
  | _ => Ok VUndefined
  end.

Section Platform.

(** The error that [fs.readFileSync] throws on a path that cannot be read. *)
Variable read_error : fs -> jsstring -> error.
(** Whether [fs.writeFileSync] refuses a write (the directory is missing,
    the file is not writable, the disk is full, ...), and then the error it
    throws and the state it leaves. *)
Variable write_refused : fs -> jsstring -> jsstring -> option (error * fs).
(** [JSON.parse], of the platform. *)
Variable JSON_parse : jsstring -> result value.
(** [path.resolve(__dirname, '../src/languages/', name)]. *)
Variable resolveLanguage : jsstring -> jsstring.
(** [path.resolve(__dirname, '../src/languages/types-generated.d.ts')]. *)
Variable declarationFilePath : jsstring.
(** [process.argv[2]]. *)
Variable argv2 : option jsstring.

Definition readFileSync (p : jsstring) : M jsstring :=
  fun s =>
    match s p with
    | Some contents => (Ok contents, s)
    | None => (Throw (read_error s p), s)
    end.

Definition writeFileSync (p contents : jsstring) : M unit :=
  fun s =>
    match write_refused s p contents with
    | Some (e, s') => (Throw e, s')
    | None =>
        (Ok tt, fun q => if jsstring_eqb q p then Some contents else s q)
    end.

Definition loadLanguageJson : M value :=
  let languageFilePath := resolveLanguage (languageFilename argv2) in
  languageContents <- readFileSync languageFilePath ;;
  parsed <- lift (JSON_parse languageContents) ;;
  lift (get_translation parsed).

Definition writeTypeDeclarationFile (contents : jsstring) : M unit :=
  writeFileSync declarationFilePath contents.

Definition run : M unit :=
  languageData <- loadLanguageJson ;;
  let tagsArray := [] in
  let tagsArray := pushNestedKeysAsArrays tagsArray languageData [] in
  let declarationString :=
    generateDeclaration (languageFilename argv2) tagsArray in
  writeTypeDeclarationFile declarationString.

End Platform.

End Codegen.

(** ** src/screens/transaction-details/components/DoubleLineTransactionDetailsRow.tsx *)

Module Row.

Local Open Scope string_scope.

Section Component.

(** [React.ReactNode]: whatever the caller passes as [leftComponent]. *)
Variable ReactNode : Type.

Inductive component : Type :=
| Box | Columns | Column | Stack | Inline | Text.

Inductive attr : Type :=
| AString : string -> attr      (* [name="..."] *)
| ANumber : nat -> attr.        (* [name={1}] *)

(** A JSX tree.  A [false] child is what [cond && <X />] leaves when
    [cond] is false; React renders nothing for it. *)
#[local] Unset Elimination Schemes.
Inductive element : Type :=
| Element : component -> list (string * attr) -> list element -> element
| ExprString : jsstring -> element
| ExprFalse : element
| ExprNode : ReactNode -> element.
#[local] Set Elimination Schemes.

(** [secondaryValue?: string]: [None] is [undefined]. *)
Record Props : Type := {
  leftComponent : ReactNode;
  secondaryValue : option jsstring;
  title : jsstring;
  value : jsstring
}.

Definition DoubleLineTransactionDetailsRow (props : Props) : element :=
  Element Box [("paddingVertical", AString "20px")] [
    Element Columns [("space", AString "10px");
                     ("alignVertical", AString "center")] [
      Element Column [("width", AString "content")]
        [ExprNode (leftComponent props)];
      Element Stack [("space", AString "10px")] [
        Element Inline [] [
          Element Text [("color", AString "labelTertiary");
                        ("size", AString "13pt");
                        ("numberOfLines", ANumber 1);
                        ("weight", AString "semibold")]
            [ExprString (title props)]
        ];
        Element Columns [] [
          Element Text [("color", AString "label");
                        ("size", AString "17pt");
                        ("weight", AString "semibold")]
            [ExprString (value props)];
          match secondaryValue props with
          | Some secondary =>
              Element Column [("width", AString "content")] [
                Element Text [("color", AString "labelTertiary");
                              ("size", AString "17pt");
                              ("weight", AString "medium");
                              ("numberOfLines", ANumber 1)]
                  [ExprString secondary]
              ]
          | None => ExprFalse
          end
        ]
      ]
    ]
  ].

(** *** What is on the screen *)

Definition is_Text (c : component) : bool :=
  match c with Text => true | _ => false end.

(** The [Text] elements of a tree, in document order.  A [false] child
    and the caller's node contribute none. *)
Fixpoint texts (e : element) : list element :=
  match e with
  | Element c _ children =>
      ((if is_Text c then [e] else []) ++ flat_map texts children)%list
  | _ => []
  end.

Definition titleText (s : jsstring) : element :=
  Element Text [("color", AString "labelTertiary");
                ("size", AString "13pt");
                ("numberOfLines", ANumber 1);
                ("weight", AString "semibold")] [ExprString s].

Definition valueText (s : jsstring) : element :=
  Element Text [("color", AString "label");
                ("size", AString "17pt");
                ("weight", AString "semibold")] [ExprString s].

Definition secondaryText (s : jsstring) : element :=
  Element Text [("color", AString "labelTertiary");
                ("size", AString "17pt");
                ("weight", AString "medium");
                ("numberOfLines", ANumber 1)] [ExprString s].

(** The expressions in braces that show something, in document order: the
    strings and the caller's nodes; a [false] child shows nothing. *)
Fixpoint shown (e : element) : list element :=
  match e with
  | Element _ _ children => flat_map shown children
  | ExprString s => [ExprString s]
  | ExprFalse => []
  | ExprNode n => [ExprNode n]
  end.

End Component.

Arguments shown {ReactNode} _.
Arguments Element {ReactNode} _ _ _.
Arguments ExprString {ReactNode} _.
Arguments ExprFalse {ReactNode}.
Arguments ExprNode {ReactNode} _.
Arguments leftComponent {ReactNode} _.
Arguments secondaryValue {ReactNode} _.
Arguments title {ReactNode} _.
Arguments value {ReactNode} _.
Arguments DoubleLineTransactionDetailsRow {ReactNode} _.
Arguments texts {ReactNode} _.
Arguments titleText {ReactNode} _.
Arguments valueText {ReactNode} _.
Arguments secondaryText {ReactNode} _.

End Row.

(** ** Notions of the specification *)

Module Spec.

Import Codegen.

(** The Key Flattener as [run] calls it. *)
Definition flatten (languageData : value) : list tag :=
  pushNestedKeysAsArrays [] languageData [].

(** [typeof v === 'object']. *)
Definition is_object (v : value) : bool :=
  jsstring_eqb (typeof v) (lit "object").

(** One turn of the loop of [pushNestedKeysAsArrays]. *)
Definition visit (prefixArray : tag) (keysArray : list tag)
  (kv : jsstring * value) : list tag :=
  let keyRepresentation := prefixArray ++ [fst kv] in
  if is_object (snd kv)
  then pushNestedKeysAsArrays (keysArray ++ [keyRepresentation]) (snd kv)
         keyRepresentation
  else keysArray ++ [keyRepresentation].

(** The tags that one key of an object contributes. *)
Definition block (kv : jsstring * value) : list tag :=
  [fst kv] ::
  (if is_object (snd kv) then map (cons (fst kv)) (flatten (snd kv))
   else []).

(** Strings, numbers, booleans, [null] and [undefined]. *)
Definition is_primitive (v : value) : bool :=
  match v with
  | VArray _ | VObject _ => false
  | _ => true
  end.

(** A Language Document: a mapping with distinct keys whose values are
    nested Language Documents or primitive leaves. *)
Inductive LanguageDocument : value -> Prop :=
| LD_mapping : forall props,
    NoDup (map fst props) ->
    (forall k v, In (k, v) props -> LanguageValue v) ->
    LanguageDocument (VObject props)
with LanguageValue : value -> Prop :=
| LV_leaf : forall v, is_primitive v = true -> LanguageValue v
| LV_nested : forall v, LanguageDocument v -> LanguageValue v.

(** A key path of a document: the keys from the root down to a key of a
    mapping, through nested mappings only. *)
Inductive KeyPath : value -> tag -> Prop :=
| KP_key : forall props k v,
    In (k, v) props -> KeyPath (VObject props) [k]
| KP_nested : forall props k v p,
    In (k, v) props -> KeyPath v p -> KeyPath (VObject props) (k :: p).

(** [Reach d p v]: the loop of the flattener, started on [d], comes to the
    key at path [p], which holds [v]. *)
Inductive Reach : value -> tag -> value -> Prop :=
| Reach_key : forall d k v,
    In (k, v) (entries d) -> Reach d [k] v
| Reach_nested : forall d k c p v,
    In (k, c) (entries d) -> is_object c = true -> Reach c p v ->
    Reach d (k :: p) v.

(** A value as JavaScript has it: no object holds two properties of one
    name. *)
Inductive distinct_keys : value -> Prop :=
| DK_object : forall props,
    NoDup (map fst props) ->
    (forall k c, In (k, c) props -> distinct_keys c) ->
    distinct_keys (VObject props)
| DK_array : forall items,
    (forall c, In c items -> distinct_keys c) ->
    distinct_keys (VArray items)
| DK_primitive : forall v, is_primitive v = true -> distinct_keys v.

(** Every occurrence of [t] in [l] comes after an occurrence of [p]. *)
Definition precedes (p t : tag) (l : list tag) : Prop :=
  forall l1 l2, l = l1 ++ t :: l2 -> In p l1.

(** *** The two renderings of the sequence form, as the specification
    words them *)

(** A component in single quotes: code unit 39 on both sides. *)
Definition quoted (component : jsstring) : jsstring :=
  39%N :: component ++ [39%N].

Definition singleLine (t : tag) : jsstring :=
  lit "  | [" ++ join (lit ", ") (map quoted t) ++ lit "]".

(** One quoted component per line, indented by six spaces, a comma after
    each but the last. *)
Fixpoint componentLines (t : tag) : list jsstring :=
  match t with
  | [] => []
  | c :: rest =>
      match rest with
      | [] => [lit "      " ++ quoted c]
      | _ :: _ => (lit "      " ++ quoted c ++ lit ",") :: componentLines rest
      end
  end.

Definition multiLine (t : tag) : jsstring :=
  join NL ([lit "  | ["] ++ componentLines t ++ [lit "    ]"]).

Definition tag_eq_dec : forall a b : tag, {a = b} + {a <> b} :=
  list_eq_dec (list_eq_dec N.eq_dec).

(** *** Documents for closed examples *)

(** [{"button": {"send": "Send"}, "cancel": "Cancel"}] *)
Definition buttons_document : value :=
  VObject [(lit "button", VObject [(lit "send", VString (lit "Send"))]);
           (lit "cancel", VString (lit "Cancel"))].

(** [{"translation": {"button": {"send": "Send"}, "cancel": "Cancel"}}] *)
Definition buttons_file : value :=
  VObject [(lit "translation", buttons_document)].

(** [{"a": ["x"], "b": "y"}] *)
Definition array_document : value :=
  VObject [(lit "a", VArray [VString (lit "x")]);
           (lit "b", VString (lit "y"))].

(** A tag whose single-line rendering has 95 code units. *)
Definition long_tag : tag :=
  [lit "transaction_details"; lit "additional_information";
   lit "long_explanation_of_the_field"; lit "title"].

(** The parsed JSON has no top-level [translation] field. *)
Definition no_translation_field (parsed : value) : Prop :=
  match parsed with
  | VObject props => ~ In (lit "translation") (map fst props)
  | _ => True
  end.

(** The file system after [writeFileSync p contents]. *)
Definition written (s : fs) (p contents : jsstring) : fs :=
  fun q => if jsstring_eqb q p then Some contents else s q.

(** *** A small platform for closed examples *)

(** Every path that cannot be read is reported as missing. *)
Definition read_error_example (s : fs) (p : jsstring) : error :=
  SystemError (lit "ENOENT").

(** A platform that accepts every write. *)
Definition write_accepted (s : fs) (p contents : jsstring)
  : option (error * fs) := None.

(** A platform on which the output directory does not exist. *)
Definition write_to_missing_directory (s : fs) (p contents : jsstring)
  : option (error * fs) := Some (SystemError (lit "ENOENT"), s).

(** A [JSON.parse] that knows two texts. *)
Definition parse_example (text : jsstring) : result value :=
  if jsstring_eqb text (lit "{}") then Ok (VObject [])
  else if jsstring_eqb text (lit "null") then Ok VNull
  else Throw SyntaxError.

Definition resolve_example (name : jsstring) : jsstring :=
  lit "/rainbow/src/languages/" ++ name.

Definition declaration_example : jsstring :=
  lit "/rainbow/src/languages/types-generated.d.ts".

(** [en_US.json] holds [{}]; the declaration file holds an earlier
    output. *)
Definition fs_example : fs :=
  fun p =>
    if jsstring_eqb p (lit "/rainbow/src/languages/en_US.json")
    then Some (lit "{}")
    else if jsstring_eqb p declaration_example
    then Some (lit "type ValidScope = 'old';")
    else None.

(** *** Reading a rendering back *)

(** The pieces of [s] between the occurrences of the code unit [x]. *)
Fixpoint split_on (x : code_unit) (s : jsstring) : list jsstring :=
  match s with
  | [] => [[]]
  | c :: rest =>
      if N.eqb c x then [] :: split_on x rest
      else match split_on x rest with
           | piece :: pieces => (c :: piece) :: pieces
           | [] => [[c]]
           end
  end.

(** The second, fourth, sixth, ... element. *)
Fixpoint every_second {A : Type} (l : list A) : list A :=
  match l with
  | _ :: b :: rest => b :: every_second rest
  | _ => []
  end.

(** What stands between single quotes in a rendering. *)
Definition between_quotes (rendered : jsstring) : list jsstring :=
  every_second (split_on 39%N rendered).

(** A string without a single quote. *)
Definition quote_free (s : jsstring) : Prop := ~ In 39%N s.

(** [{"translation": {}}], the text and its parse. *)
Definition empty_translation_text : jsstring :=
  lit "{" ++ [34%N] ++ lit "translation" ++ [34%N] ++ lit ": {}}".

Definition parse_empty_translation (text : jsstring) : result value :=
  if jsstring_eqb text empty_translation_text
  then Ok (VObject [(lit "translation", VObject [])])
  else Throw SyntaxError.

Definition fs_empty_translation : fs :=
  fun p =>
    if jsstring_eqb p (lit "/rainbow/src/languages/en_US.json")
    then Some empty_translation_text
    else None.

(** Closes [quote_free] on a literal. *)
Ltac literal_quote_free :=
  unfold quote_free; vm_compute; intuition discriminate.

(** Closes [NoDup] on a list of literal names. *)
Ltac solve_NoDup :=
  repeat constructor; simpl; intuition discriminate.

End Spec.

(** ** The Key Flattener *)

Module FlattenFacts.

Import Codegen Spec.

Lemma is_object_cases (v : value) :
  is_object v = match v with
                | VNull | VArray _ | VObject _ => true
                | _ => false
                end.
Proof. destruct v; reflexivity. Qed.

Lemma is_object_indexed_strings i (s : jsstring) k c :
  In (k, c) (indexed_from i (map (fun u => VString [u]) s)) ->
  is_object c = false.
Proof.
  revert i; induction s as [|u s IH]; simpl; intros i H.
  - contradiction.
  - destruct H as [H|H].
    + inversion H; reflexivity.
    + eapply IH; eassumption.
Qed.

(** Induction on values along the descent of the flattener: the children
    that matter are those it recurses into. *)
Lemma value_descent_ind (P : value -> Prop) :
  (forall v,
      (forall k c, In (k, c) (entries v) -> is_object c = true -> P c) ->
      P v) ->
  forall v, P v.
Proof.
  intros step. fix F 1. intros v. apply step.
  destruct v as [ | | b | x | s | items | props]; simpl;
    try (intros k c []).
  - intros k c Hin Hobj.
    rewrite (is_object_indexed_strings _ _ _ _ Hin) in Hobj. discriminate.
  - assert (Hall : Forall P items).
    { induction items as [|a items IH]; constructor; [apply F | exact IH]. }
    clear F. rewrite Forall_forall in Hall.
    intros k c Hin _. apply Hall. clear Hall. revert Hin. generalize 0.
    induction items as [|a items IH]; simpl; intros i Hin.
    + contradiction.
    + destruct Hin as [Hin|Hin].
      * inversion Hin; left; reflexivity.
      * right. eapply IH; eassumption.
  - assert (Hall : Forall P (map snd props)).
    { induction props as [|[k0 a] props IH]; constructor;
        [apply F | exact IH]. }
    clear F. rewrite Forall_forall in Hall.
    intros k c Hin _. apply Hall. apply (in_map snd _ _ Hin).
Qed.

(** The source's loop is a left fold of [visit] over what [for ... in]
    enumerates. *)
Lemma push_fold (object : value) :
  forall keysArray prefixArray,
    pushNestedKeysAsArrays keysArray object prefixArray
    = fold_left (visit prefixArray) (entries object) keysArray.
Proof.
  destruct object as [ | | b | x | s | items | props];
    intros keysArray prefixArray; try reflexivity.
  - (* string *)
    cbn [pushNestedKeysAsArrays].
    generalize (is_object_indexed_strings 0 s).
    cbn [entries]. generalize (indexed_from 0 (map (fun c => VString [c]) s)).
    intros l Hl. revert keysArray.
    induction l as [|[k c] l IH]; intros keysArray; simpl; [reflexivity|].
    unfold visit at 2; simpl.
    rewrite (Hl k c (or_introl eq_refl)).
    apply IH. intros k' c' H. apply (Hl k' c'). right; exact H.
  - (* array *)
    cbn [pushNestedKeysAsArrays entries]. generalize 0. revert keysArray.
    induction items as [|a items IH]; intros keysArray i; simpl;
      [reflexivity|].
    rewrite IH. reflexivity.
  - (* object *)
    cbn [pushNestedKeysAsArrays entries]. revert keysArray.
    induction props as [|[k a] props IH]; intros keysArray; simpl;
      [reflexivity|].
    rewrite IH. reflexivity.
Qed.

Lemma visit_shape prefixArray keysArray k c :
  (is_object c = true ->
   forall acc pre,
     pushNestedKeysAsArrays acc c pre = acc ++ map (app pre) (flatten c)) ->
  visit prefixArray keysArray (k, c)
  = keysArray ++ map (app prefixArray) (block (k, c)).
Proof.
  intros IH. unfold visit, block; simpl.
  destruct (is_object c) eqn:Hobj.
  - rewrite (IH eq_refl), <- app_assoc. simpl. do 2 f_equal.
    rewrite map_map. apply map_ext. intros t.
    rewrite <- app_assoc. reflexivity.
  - reflexivity.
Qed.

Lemma fold_visit_shape (es : list (jsstring * value)) :
  (forall k c, In (k, c) es -> is_object c = true ->
     forall acc pre,
       pushNestedKeysAsArrays acc c pre = acc ++ map (app pre) (flatten c)) ->
  forall keysArray prefixArray,
    fold_left (visit prefixArray) es keysArray
    = keysArray ++ map (app prefixArray) (flat_map block es).
Proof.
  induction es as [|[k c] es IH]; intros Hes keysArray prefixArray;
    cbn [fold_left flat_map map].
  - rewrite app_nil_r. reflexivity.
  - rewrite (visit_shape prefixArray keysArray k c
               (Hes k c (or_introl eq_refl))).
    rewrite IH by (intros k' c' H; apply (Hes k' c'); right; exact H).
    rewrite map_app, app_assoc. reflexivity.
Qed.

Lemma map_app_nil (l : list tag) : map (app []) l = l.
Proof.
  induction l as [|t l IH]; cbn [map]; [reflexivity|].
  rewrite IH. reflexivity.
Qed.

(** The array grows at its end only, and the prefix is put in front of
    every new tag. *)
Lemma push_shape (object : value) :
  forall keysArray prefixArray,
    pushNestedKeysAsArrays keysArray object prefixArray
    = keysArray ++ map (app prefixArray) (flatten object).
Proof.
  induction object as [object IH] using value_descent_ind.
  intros keysArray prefixArray.
  unfold flatten.
  rewrite !push_fold, !(fold_visit_shape _ IH).
  simpl. rewrite map_app_nil. reflexivity.
Qed.

(** The flattener's output, key by key. *)
Lemma flatten_entries (object : value) :
  flatten object = flat_map block (entries object).
Proof.
  unfold flatten. rewrite push_fold, fold_visit_shape.
  - simpl. apply map_app_nil.
  - intros k c _ _. apply push_shape.
Qed.

(** Which tags a value yields, one level at a time. *)
Lemma flatten_In (object : value) (t : tag) :
  In t (flatten object) <->
  exists k c, In (k, c) (entries object) /\
    (t = [k] \/
     (is_object c = true /\ exists t', t = k :: t' /\ In t' (flatten c))).
Proof.
  rewrite flatten_entries, in_flat_map. split.
  - intros [[k c] [Hin Hb]]. exists k, c. split; [exact Hin|].
    unfold block in Hb; simpl in Hb. destruct Hb as [Hb|Hb].
    + left. symmetry; exact Hb.
    + right. destruct (is_object c); [|contradiction].
      split; [reflexivity|].
      apply in_map_iff in Hb. destruct Hb as [t' [Ht' Hin']].
      exists t'. split; [symmetry; exact Ht' | exact Hin'].
  - intros [k [c [Hin H]]]. exists (k, c). split; [exact Hin|].
    unfold block; simpl. destruct H as [H|[Hobj [t' [Ht' Hin']]]].
    + left. symmetry; exact H.
    + right. rewrite Hobj. subst t. apply in_map. exact Hin'.
Qed.

Lemma flatten_nonempty (object : value) : ~ In [] (flatten object).
Proof.
  rewrite flatten_In. intros [k [c [_ [H|[_ [t' [H _]]]]]]]; discriminate.
Qed.

(** Soundness of the loop: every tag is the path of a key it came to. *)
Lemma flatten_Reach (object : value) :
  forall t, In t (flatten object) -> exists v, Reach object t v.
Proof.
  induction object as [object IH] using value_descent_ind.
  intros t Ht. apply flatten_In in Ht.
  destruct Ht as [k [c [Hin [Ht|[Hobj [t' [Ht Hin']]]]]]]; subst t.
  - exists c. apply Reach_key. exact Hin.
  - destruct (IH k c Hin Hobj t' Hin') as [v Hv].
    exists v. eapply Reach_nested; eassumption.
Qed.

(** Completeness of the loop: every key it comes to is recorded. *)
Lemma Reach_flatten (object : value) (t : tag) (v : value) :
  Reach object t v -> In t (flatten object).
Proof.
  induction 1 as [d k v Hin | d k c p v Hin Hobj _ IH];
    apply flatten_In; exists k.
  - exists v. split; [exact Hin | left; reflexivity].
  - exists c. split; [exact Hin|]. right. split; [exact Hobj|].
    exists p. split; [reflexivity | exact IH].
Qed.

(** *** Property names *)

Lemma jsstring_eqb_eq (a b : jsstring) : jsstring_eqb a b = true <-> a = b.
Proof.
  revert b; induction a as [|x a IH]; intros [|y b]; simpl;
    try (split; [discriminate | discriminate]); [tauto|].
  rewrite andb_true_iff, N.eqb_eq, IH. split.
  - intros [-> ->]; reflexivity.
  - intros H; inversion H; split; reflexivity.
Qed.

Lemma jsstring_eqb_refl (a : jsstring) : jsstring_eqb a a = true.
Proof. apply jsstring_eqb_eq; reflexivity. Qed.

Lemma jsstring_eqb_neq (a b : jsstring) : a <> b -> jsstring_eqb a b = false.
Proof.
  intros H. destruct (jsstring_eqb a b) eqn:E; [|reflexivity].
  apply jsstring_eqb_eq in E. contradiction.
Qed.

Lemma lit_inj (a b : string) : lit a = lit b -> a = b.
Proof.
  unfold lit. intros H.
  apply (f_equal (map ascii_of_N)) in H. rewrite !map_map in H.
  rewrite !(map_ext _ (fun x => x) ascii_N_embedding), !map_id in H.
  apply (f_equal string_of_list_ascii) in H.
  rewrite !string_of_list_ascii_of_string in H. exact H.
Qed.

(** Distinct indices have distinct property names. *)
Lemma index_key_inj (i j : nat) : index_key i = index_key j -> i = j.
Proof.
  unfold index_key. intros H. apply lit_inj in H.
  apply (f_equal NilEmpty.uint_of_string) in H. rewrite !NilEmpty.usu in H.
  inversion H as [H']. apply (f_equal Nat.of_uint) in H'.
  rewrite !Unsigned.of_to in H'. exact H'.
Qed.

Lemma indexed_from_keys (i : nat) (items : list value) (k : jsstring) :
  In k (map fst (indexed_from i items)) -> exists j, i <= j /\ k = index_key j.
Proof.
  revert i; induction items as [|a items IH]; simpl; intros i H.
  - contradiction.
  - destruct H as [H|H].
    + exists i. split; [lia | symmetry; exact H].
    + destruct (IH _ H) as [j [Hj Hk]]. exists j. split; [lia | exact Hk].
Qed.

Lemma indexed_from_NoDup (i : nat) (items : list value) :
  NoDup (map fst (indexed_from i items)).
Proof.
  revert i; induction items as [|a items IH]; simpl; intros i; constructor.
  - intros H. apply indexed_from_keys in H. destruct H as [j [Hj Hk]].
    apply index_key_inj in Hk. lia.
  - apply IH.
Qed.

Lemma indexed_from_In (i : nat) (items : list value) k c :
  In (k, c) (indexed_from i items) -> In c items.
Proof.
  revert i; induction items as [|a items IH]; simpl; intros i H.
  - contradiction.
  - destruct H as [H|H].
    + left. inversion H; reflexivity.
    + right. eapply IH; exact H.
Qed.

Lemma indexed_from_nth (items : list value) :
  forall i n c, nth_error items n = Some c ->
    In (index_key (i + n), c) (indexed_from i items).
Proof.
  induction items as [|a items IH]; intros i [|n] c H; simpl in *;
    try discriminate.
  - left. inversion H. rewrite Nat.add_0_r. reflexivity.
  - right. replace (i + S n) with (S i + n) by lia. apply IH. exact H.
Qed.

(** What [for ... in] enumerates never repeats a name. *)
Lemma entries_NoDup (v : value) :
  distinct_keys v -> NoDup (map fst (entries v)).
Proof.
  intros H. destruct v; simpl; try constructor; try apply indexed_from_NoDup.
  inversion H as [props Hnd _ | | v Hp]; [exact Hnd | discriminate].
Qed.

Lemma distinct_keys_child (v : value) k c :
  distinct_keys v -> In (k, c) (entries v) -> distinct_keys c.
Proof.
  intros H Hin. destruct v as [ | | b | x | s | items | props];
    simpl in Hin; try contradiction.
  - apply indexed_from_In in Hin. apply in_map_iff in Hin.
    destruct Hin as [u [<- _]]. apply DK_primitive. reflexivity.
  - inversion H as [ | items' Hall | v Hp]; [|discriminate].
    apply Hall. eapply indexed_from_In; exact Hin.
  - inversion H as [props' _ Hall | | v Hp]; [|discriminate].
    eapply Hall; exact Hin.
Qed.

Lemma assoc_functional (es : list (jsstring * value)) k c1 c2 :
  NoDup (map fst es) -> In (k, c1) es -> In (k, c2) es -> c1 = c2.
Proof.
  induction es as [|[k0 c0] es IH]; simpl; intros Hnd H1 H2.
  - contradiction.
  - inversion Hnd as [|? ? Hnotin Hnd']; subst.
    destruct H1 as [H1|H1], H2 as [H2|H2].
    + congruence.
    + inversion H1; subst. exfalso. apply Hnotin.
      apply (in_map fst _ _ H2).
    + inversion H2; subst. exfalso. apply Hnotin.
      apply (in_map fst _ _ H1).
    + apply IH; assumption.
Qed.

(** [object[key]] is the value that the loop pairs with [key]. *)
Lemma get_prop_entry (props : list (jsstring * value)) k c :
  NoDup (map fst props) -> In (k, c) props -> get_prop props k = c.
Proof.
  induction props as [|[k0 c0] props IH]; simpl; intros Hnd Hin.
  - contradiction.
  - inversion Hnd as [|? ? Hnotin Hnd']; subst.
    destruct Hin as [Hin|Hin].
    + inversion Hin; subst. rewrite jsstring_eqb_refl. reflexivity.
    + rewrite jsstring_eqb_neq.
      * apply IH; assumption.
      * intros ->. apply Hnotin. apply (in_map fst _ _ Hin).
Qed.

(** *** No tag twice *)

Lemma block_head (kv : jsstring * value) (t : tag) :
  In t (block kv) -> exists r, t = fst kv :: r.
Proof.
  unfold block. simpl. intros [H|H].
  - exists []. symmetry; exact H.
  - destruct (is_object (snd kv)); [|contradiction].
    apply in_map_iff in H. destruct H as [r [H _]].
    exists r. symmetry; exact H.
Qed.

Lemma block_NoDup (kv : jsstring * value) :
  (is_object (snd kv) = true -> NoDup (flatten (snd kv))) ->
  NoDup (block kv).
Proof.
  intros H. unfold block. constructor.
  - destruct (is_object (snd kv)); [|intros []].
    intros Hin. apply in_map_iff in Hin. destruct Hin as [r [Hr Hin]].
    inversion Hr; subst. exact (flatten_nonempty _ Hin).
  - destruct (is_object (snd kv)); [|constructor].
    apply NoDup_map_NoDup_ForallPairs; [|apply H; reflexivity].
    intros x y _ _ Heq. inversion Heq; reflexivity.
Qed.

Lemma flat_map_block_NoDup (es : list (jsstring * value)) :
  NoDup (map fst es) ->
  (forall kv, In kv es -> NoDup (block kv)) ->
  NoDup (flat_map block es).
Proof.
  induction es as [|kv es IH]; cbn [flat_map map]; intros Hnd Hb.
  - constructor.
  - inversion Hnd as [|? ? Hnotin Hnd']; subst.
    apply NoDup_app.
    + apply Hb. left; reflexivity.
    + apply IH; [exact Hnd'|]. intros kv' H. apply Hb. right; exact H.
    + intros t Ht Ht'. apply Hnotin.
      apply block_head in Ht. destruct Ht as [r ->].
      apply in_flat_map in Ht'. destruct Ht' as [kv' [Hin' Ht']].
      apply block_head in Ht'. destruct Ht' as [r' Heq].
      inversion Heq as [[Hk Hr]]. rewrite Hk. apply in_map. exact Hin'.
Qed.

(** On a value whose objects have distinct property names, the flattener
    records no tag twice. *)
Lemma flatten_NoDup (object : value) :
  distinct_keys object -> NoDup (flatten object).
Proof.
  induction object as [object IH] using value_descent_ind.
  intros Hdk. rewrite flatten_entries.
  apply flat_map_block_NoDup.
  - apply entries_NoDup. exact Hdk.
  - intros [k c] Hin. apply block_NoDup. simpl. intros Hobj.
    apply (IH k c Hin Hobj). eapply distinct_keys_child; eassumption.
Qed.

(** *** Parents before descendants *)

Lemma precedes_app (p t : tag) (a b : list tag) :
  precedes p t a -> precedes p t b -> precedes p t (a ++ b).
Proof.
  intros Ha Hb l1 l2 H.
  apply app_eq_app in H. destruct H as [l [[H1 H2]|[H1 H2]]].
  - destruct l as [|x l].
    + rewrite app_nil_r in H1. subst a. simpl in H2.
      destruct (Hb [] l2 (eq_sym H2)).
    + simpl in H2. inversion H2; subst. apply (Ha l1 l). reflexivity.
  - subst l1. apply in_or_app. right. apply (Hb l l2). exact H2.
Qed.

Lemma precedes_flat_map (p t : tag) (es : list (jsstring * value)) :
  (forall kv, In kv es -> precedes p t (block kv)) ->
  precedes p t (flat_map block es).
Proof.
  induction es as [|kv es IH]; cbn [flat_map]; intros H.
  - intros l1 l2 Heq. destruct l1; discriminate.
  - apply precedes_app.
    + apply H. left; reflexivity.
    + apply IH. intros kv' Hin. apply H. right; exact Hin.
Qed.

(** Before every occurrence of a tag comes every non-empty proper prefix of
    it. *)
Lemma flatten_precedes (object : value) :
  forall p q, p <> [] -> q <> [] -> precedes p (p ++ q) (flatten object).
Proof.
  induction object as [object IH] using value_descent_ind.
  intros p q Hp Hq. rewrite flatten_entries.
  apply precedes_flat_map. intros [k c] Hin l1 l2 Heq.
  unfold block in Heq; simpl in Heq.
  destruct l1 as [|t0 l1].
  - (* the tag would be the key alone: too short *)
    simpl in Heq. inversion Heq as [[Hk Hrest]].
    destruct p as [|x p]; [contradiction|].
    destruct p; destruct q; try contradiction; discriminate.
  - simpl in Heq. inversion Heq as [[Hk Hrest]]. subst t0.
    destruct (is_object c) eqn:Hobj.
    2:{ destruct l1; discriminate. }
    apply map_eq_app in Hrest.
    destruct Hrest as [f1 [f2 [Hf [Hl1 Hf2]]]].
    apply map_eq_cons in Hf2. destruct Hf2 as [t' [f2' [Hf2 [Ht' _]]]].
    destruct p as [|x p]; [contradiction|].
    simpl in Ht'. inversion Ht' as [[Hx Ht]]. subst x.
    destruct p as [|y p].
    + left. reflexivity.
    + right. subst l1. apply in_map.
      apply (IH k c Hin Hobj (y :: p) q ltac:(discriminate) Hq f1 f2').
      rewrite Hf, Hf2, Ht. reflexivity.
Qed.

(** *** Paths *)

Lemma Reach_nonempty (d v : value) : ~ Reach d [] v.
Proof. intros H. inversion H. Qed.

Lemma Reach_entries (d : value) (p : tag) (v : value) :
  Reach d p v -> entries d <> [].
Proof.
  intros H Hnil. inversion H as [? ? ? Hin | ? ? ? ? ? Hin]; subst;
    rewrite Hnil in Hin; exact Hin.
Qed.

(** On a value with distinct property names a path leads to one value. *)
Lemma Reach_functional (d : value) (p : tag) (v1 v2 : value) :
  distinct_keys d -> Reach d p v1 -> Reach d p v2 -> v1 = v2.
Proof.
  intros Hdk H1. revert v2 Hdk.
  induction H1 as [d k v Hin | d k c p v Hin Hobj H1 IH]; intros v2 Hdk H2.
  - inversion H2 as [? ? ? Hin2 | ? ? c2 ? ? Hin2 Hobj2 H2']; subst.
    + eapply assoc_functional; [apply entries_NoDup| |]; eassumption.
    + destruct (Reach_nonempty _ _ H2').
  - inversion H2 as [? ? ? Hin2 | ? ? c2 ? ? Hin2 Hobj2 H2']; subst.
    + destruct (Reach_nonempty _ _ H1).
    + assert (c = c2)
        by (eapply assoc_functional; [apply entries_NoDup| |]; eassumption).
      subst c2. apply IH; [|exact H2'].
      eapply distinct_keys_child; eassumption.
Qed.

(** A longer path passes through the value at each of its prefixes, and
    that value is one the flattener descends into. *)
Lemma Reach_split (p q : tag) :
  p <> [] -> q <> [] ->
  forall d v, Reach d (p ++ q) v ->
    exists c, Reach d p c /\ is_object c = true /\ Reach c q v.
Proof.
  induction p as [|x p IH]; intros Hp Hq d v H; [contradiction|].
  simpl in H.
  inversion H as [? ? ? Hin Heq | ? ? c ? ? Hin Hobj H']; subst.
  - destruct p; destruct q; try contradiction; discriminate.
  - destruct p as [|y p].
    + exists c. split; [apply Reach_key; exact Hin|]. split; assumption.
    + destruct (IH ltac:(discriminate) Hq c v H') as [c' [Hc' [Hobj' Hq']]].
      exists c'. split; [|split; assumption].
      eapply Reach_nested; eassumption.
Qed.

Lemma Reach_app (d : value) (p q : tag) (c v : value) :
  Reach d p c -> is_object c = true -> Reach c q v -> Reach d (p ++ q) v.
Proof.
  induction 1 as [d k c Hin | d k c0 p c Hin Hobj0 _ IH]; intros Hobj Hq.
  - simpl. eapply Reach_nested; eassumption.
  - simpl. eapply Reach_nested; [exact Hin | exact Hobj0 | apply IH; assumption].
Qed.

(** *** Language Documents *)

Lemma KeyPath_mapping (d : value) (t : tag) :
  KeyPath d t -> is_object d = true.
Proof. intros H; inversion H; reflexivity. Qed.

Lemma KeyPath_Reach (d : value) (t : tag) :
  KeyPath d t -> exists v, Reach d t v.
Proof.
  induction 1 as [props k v Hin | props k v p Hin Hp [w IH]].
  - exists v. apply Reach_key. exact Hin.
  - exists w. eapply Reach_nested; [exact Hin | | exact IH].
    eapply KeyPath_mapping; exact Hp.
Qed.

Lemma Reach_KeyPath (d : value) (t : tag) (v : value) :
  Reach d t v -> LanguageDocument d -> KeyPath d t.
Proof.
  induction 1 as [d k v Hin | d k c p v Hin Hobj H IH]; intros Hld;
    inversion Hld as [props Hnd Hvals]; subst; simpl in Hin.
  - eapply KP_key; exact Hin.
  - eapply KP_nested; [exact Hin|]. apply IH.
    destruct (Hvals k c Hin) as [c' Hleaf | c' Hdoc]; [|exact Hdoc].
    exfalso. apply (Reach_entries _ _ _ H).
    destruct c'; try reflexivity; discriminate.
Qed.

Lemma LanguageDocument_distinct_keys (d : value) :
  LanguageDocument d -> distinct_keys d.
Proof.
  induction d as [d IH] using value_descent_ind.
  intros Hld. inversion Hld as [props Hnd Hvals]; subst.
  apply DK_object; [exact Hnd|]. intros k c Hin.
  destruct (Hvals k c Hin) as [c' Hleaf | c' Hdoc].
  - apply DK_primitive. exact Hleaf.
  - apply (IH k c' Hin); [|exact Hdoc].
    inversion Hdoc; reflexivity.
Qed.

End FlattenFacts.

(** ** The Tag Renderer *)

Module RenderFacts.

Import Codegen Spec.

Lemma join_cons_more (sep p : jsstring) (rest : list jsstring) :
  rest <> [] -> join sep (p :: rest) = p ++ sep ++ join sep rest.
Proof. destruct rest; [contradiction | reflexivity]. Qed.

Lemma quoted_template (component : jsstring) :
  lit "'" ++ component ++ lit "'" = quoted component.
Proof. reflexivity. Qed.

Lemma stringRepresentations_quoted (t : tag) :
  map (fun component => lit "'" ++ component ++ lit "'") t = map quoted t.
Proof. apply map_ext. exact quoted_template. Qed.

(** The source's test and its two templates, on the quoted components. *)
Lemma generateArrayRepresentationForTag_unfold (t : tag) :
  generateArrayRepresentationForTag t
  = if List.length (singleLine t) <=? maxLineLength then singleLine t
    else lit "  | [" ++ NL ++
         lit "      " ++
           join (lit "," ++ NL ++ lit "      ") (map quoted t) ++ NL ++
         lit "    ]".
Proof.
  unfold generateArrayRepresentationForTag, singleLine.
  rewrite stringRepresentations_quoted. reflexivity.
Qed.

Lemma componentLines_nonempty (c : jsstring) (t : tag) :
  componentLines (c :: t) <> [].
Proof. destruct t; discriminate. Qed.

(** The multi-line template lays one quoted component on each line. *)
Lemma multiLine_template (c : jsstring) (t : tag) :
  lit "  | [" ++ NL ++
  lit "      " ++
    join (lit "," ++ NL ++ lit "      ") (map quoted (c :: t)) ++ NL ++
  lit "    ]"
  = multiLine (c :: t).
Proof.
  unfold multiLine.
  change ([lit "  | ["] ++ componentLines (c :: t) ++ [lit "    ]"])
    with (lit "  | [" :: (componentLines (c :: t) ++ [lit "    ]"])).
  rewrite join_cons_more
    by (intros H; apply app_eq_nil in H; destruct H as [H _];
        exact (componentLines_nonempty c t H)).
  do 2 f_equal. revert c.
  induction t as [|c' t IH]; intros c.
  - cbn [componentLines map join app]. rewrite <- !app_assoc. reflexivity.
  - change (componentLines (c :: c' :: t))
      with ((lit "      " ++ quoted c ++ lit ",") :: componentLines (c' :: t)).
    cbn [app].
    rewrite join_cons_more
      by (intros H; apply app_eq_nil in H; destruct H as [H _];
          exact (componentLines_nonempty c' t H)).
    rewrite <- IH.
    change (map quoted (c :: c' :: t))
      with (quoted c :: map quoted (c' :: t)).
    rewrite join_cons_more by discriminate.
    rewrite <- !app_assoc. reflexivity.
Qed.

(** The two branches of [generateArrayRepresentationForTag]. *)
Lemma render_long (t : tag) :
  80 < List.length (singleLine t) ->
  generateArrayRepresentationForTag t = multiLine t.
Proof.
  intros H. rewrite generateArrayRepresentationForTag_unfold.
  unfold maxLineLength.
  destruct (Nat.leb_spec (List.length (singleLine t)) 80) as [Hle|Hgt];
    [lia|].
  destruct t as [|c t].
  - vm_compute in H. lia.
  - apply multiLine_template.
Qed.

Lemma render_short (t : tag) :
  List.length (singleLine t) <= 80 ->
  generateArrayRepresentationForTag t = singleLine t.
Proof.
  intros H. rewrite generateArrayRepresentationForTag_unfold.
  unfold maxLineLength.
  destruct (Nat.leb_spec (List.length (singleLine t)) 80) as [Hle|Hgt];
    [reflexivity | lia].
Qed.

Lemma generateTypeForTag_quoted (t : tag) :
  generateTypeForTag t
  = NL ++ lit "  | " ++ quoted (join (lit ".") t) ++ NL ++
    generateArrayRepresentationForTag t.
Proof.
  unfold generateTypeForTag. f_equal.
  change (lit "  | '") with (lit "  | " ++ lit "'").
  rewrite <- app_assoc. f_equal.
  change (quoted (join (lit ".") t))
    with (lit "'" ++ (join (lit ".") t ++ lit "'")).
  rewrite <- !app_assoc. reflexivity.
Qed.

(** The threshold itself: a rendering of exactly 80 code units stays on one
    line, one of 81 is split. *)
Example rendering_of_80_units :
  List.length (singleLine [repeat 107%N 72]) = 80 /\
  generateArrayRepresentationForTag [repeat 107%N 72]
  = singleLine [repeat 107%N 72].
Proof. split; vm_compute; reflexivity. Qed.

Example rendering_of_81_units :
  List.length (singleLine [repeat 107%N 73]) = 81 /\
  generateArrayRepresentationForTag [repeat 107%N 73]
  = multiLine [repeat 107%N 73].
Proof. split; vm_compute; reflexivity. Qed.

Example long_tag_length : List.length (singleLine long_tag) = 95.
Proof. vm_compute. reflexivity. Qed.

End RenderFacts.

(** ** The Orchestrator *)

Module RunFacts.

Import Codegen Spec FlattenFacts.

Section Platform.

Variable read_error : fs -> jsstring -> error.
Variable write_refused : fs -> jsstring -> jsstring -> option (error * fs).
Variable JSON_parse : jsstring -> result value.
Variable resolveLanguage : jsstring -> jsstring.
Variable declarationFilePath : jsstring.
Variable argv2 : option jsstring.

Let run :=
  run read_error write_refused JSON_parse resolveLanguage declarationFilePath
    argv2.
Let languageFilePath := resolveLanguage (languageFilename argv2).

Lemma writeFileSync_accepted (s : fs) (p contents : jsstring) :
  write_refused s p contents = None ->
  writeFileSync write_refused p contents s = (Ok tt, written s p contents).
Proof. intros H. unfold writeFileSync. rewrite H. reflexivity. Qed.

Lemma writeFileSync_refused (s s' : fs) (p contents : jsstring) (e : error) :
  write_refused s p contents = Some (e, s') ->
  writeFileSync write_refused p contents s = (Throw e, s').
Proof. intros H. unfold writeFileSync. rewrite H. reflexivity. Qed.

(** The run, step by step: read, parse, take [translation], flatten,
    render, write. *)
Lemma run_steps (s : fs) :
  run s
  = match s languageFilePath with
    | None => (Throw (read_error s languageFilePath), s)
    | Some languageContents =>
        match JSON_parse languageContents with
        | Throw e => (Throw e, s)
        | Ok parsed =>
            match get_translation parsed with
            | Throw e => (Throw e, s)
            | Ok languageData =>
                writeFileSync write_refused declarationFilePath
                  (generateDeclaration (languageFilename argv2)
                     (flatten languageData)) s
            end
        end
    end.
Proof.
  unfold run, Codegen.run, loadLanguageJson, writeTypeDeclarationFile, bind,
    readFileSync, lift, languageFilePath, flatten.
  destruct (s (resolveLanguage (languageFilename argv2))) as [c|];
    [|reflexivity].
  destruct (JSON_parse c) as [parsed|e]; [|reflexivity].
  destruct (get_translation parsed) as [d|e]; reflexivity.
Qed.

(** A run that throws has left the file system as it was, unless it is
    [fs.writeFileSync] that threw. *)
Lemma run_throw_unchanged_or_refused (s s' : fs) (e : error) :
  run s = (Throw e, s') ->
  s' = s \/
  exists contents, write_refused s declarationFilePath contents = Some (e, s').
Proof.
  rewrite run_steps.
  destruct (s languageFilePath) as [c|];
    [|intros H; inversion H; left; reflexivity].
  destruct (JSON_parse c) as [parsed|e'];
    [|intros H; inversion H; left; reflexivity].
  destruct (get_translation parsed) as [d|e'];
    [|intros H; inversion H; left; reflexivity].
  unfold writeFileSync.
  destruct (write_refused s declarationFilePath _) as [[e' s'']|] eqn:Hw;
    intros H; inversion H; subst.
  right. eexists. exact Hw.
Qed.

(** A run that ends normally has come through every step. *)
Lemma run_ok_inv (s s1 : fs) :
  run s = (Ok tt, s1) ->
  exists languageContents parsed languageData,
    s languageFilePath = Some languageContents /\
    JSON_parse languageContents = Ok parsed /\
    get_translation parsed = Ok languageData /\
    s1 = written s declarationFilePath
           (generateDeclaration (languageFilename argv2)
              (flatten languageData)).
Proof.
  rewrite run_steps.
  destruct (s languageFilePath) as [c|] eqn:Hread; [|discriminate].
  destruct (JSON_parse c) as [parsed|e] eqn:Hparse; [|discriminate].
  destruct (get_translation parsed) as [d|e] eqn:Hget; [|discriminate].
  unfold writeFileSync.
  destruct (write_refused s declarationFilePath _) as [[e' s'']|];
    [discriminate|].
  intros H. inversion H. exists c, parsed, d.
  split; [reflexivity|]. split; [exact Hparse|]. split; [exact Hget|].
  reflexivity.
Qed.

End Platform.

Lemma get_prop_missing (props : list (jsstring * value)) (key : jsstring) :
  ~ In key (map fst props) -> get_prop props key = VUndefined.
Proof.
  induction props as [|[k v] props IH]; simpl; intros H; [reflexivity|].
  rewrite jsstring_eqb_neq by (intros ->; apply H; left; reflexivity).
  apply IH. intros Hin. apply H. right; exact Hin.
Qed.

(** Without a [translation] field the property access throws on [null] and
    [undefined] and gives [undefined] on everything else. *)
Lemma get_translation_missing (parsed : value) :
  no_translation_field parsed ->
  get_translation parsed
  = match parsed with
    | VNull | VUndefined => Throw TypeError
    | _ => Ok VUndefined
    end.
Proof.
  destruct parsed; simpl; intros H; try reflexivity.
  rewrite get_prop_missing by exact H. reflexivity.
Qed.

Lemma written_same (s : fs) (p contents : jsstring) :
  written s p contents p = Some contents.
Proof. unfold written. rewrite jsstring_eqb_refl. reflexivity. Qed.

Lemma written_other (s : fs) (p contents q : jsstring) :
  q <> p -> written s p contents q = s q.
Proof. intros H. unfold written. rewrite jsstring_eqb_neq by exact H. reflexivity. Qed.

End RunFacts.

(** ** The claims on the Key Flattener *)

Import Codegen Spec FlattenFacts.

(** C1.  For every Language Document, the tag list that
    [pushNestedKeysAsArrays] builds from the empty array and the empty prefix
    holds every key path of the document exactly once (completeness) and
    holds nothing that is not a key path of the document (soundness). *)
Theorem flatten_complete_and_sound (d : value) :
  LanguageDocument d ->
  (forall t, KeyPath d t -> count_occ tag_eq_dec (flatten d) t = 1) /\
  (forall t, In t (flatten d) -> KeyPath d t).
Proof.
  intros Hld. split.
  - intros t Hkp.
    apply (proj1 (NoDup_count_occ' tag_eq_dec (flatten d))).
    + apply flatten_NoDup. apply LanguageDocument_distinct_keys. exact Hld.
    + destruct (KeyPath_Reach d t Hkp) as [v Hv].
      eapply Reach_flatten; exact Hv.
  - intros t Hin. destruct (flatten_Reach d t Hin) as [v Hv].
    eapply Reach_KeyPath; eassumption.
Qed.

Lemma buttons_document_is_LanguageDocument : LanguageDocument buttons_document.
Proof.
  apply LD_mapping; [solve_NoDup|].
  intros k v [H|[H|[]]]; inversion H; subst.
  - apply LV_nested. apply LD_mapping; [solve_NoDup|].
    intros k' v' [H'|[]]; inversion H'; subst. apply LV_leaf; reflexivity.
  - apply LV_leaf; reflexivity.
Qed.

Lemma flatten_complete_and_sound_witness :
  LanguageDocument buttons_document /\
  (forall t, KeyPath buttons_document t ->
     count_occ tag_eq_dec (flatten buttons_document) t = 1) /\
  (forall t, In t (flatten buttons_document) -> KeyPath buttons_document t).
Proof.
  split.
  - exact buttons_document_is_LanguageDocument.
  - apply (flatten_complete_and_sound buttons_document).
    exact buttons_document_is_LanguageDocument.
Defined.

(** C3, as the claim states it, fails: the value of key [a] is an array, and
    the flattener goes into it and records the tag [a.0] under [a]. *)
Lemma array_value_is_traversed :
  get_prop (entries array_document) (lit "a") = VArray [VString (lit "x")] /\
  flatten array_document = [[lit "a"]; [lit "a"; lit "0"]; [lit "b"]].
Proof. split; reflexivity. Qed.

(** C3, amended.  On a value whose objects have distinct property names,
    every key the flattener comes to is recorded as a tag; when the key
    holds a primitive (a string, a number, a boolean, [null] or
    [undefined]) no tag extends its path; when it holds an array the
    flattener goes into the array and records, under the key, one tag per
    index, named by the decimal numeral of the index. *)
Theorem primitives_are_leaves_and_arrays_are_traversed
  (d : value) (p : tag) (v : value) :
  distinct_keys d ->
  Reach d p v ->
  In p (flatten d) /\
  (is_primitive v = true ->
   forall q, q <> [] -> ~ In (p ++ q) (flatten d)) /\
  (forall items i c,
     v = VArray items -> nth_error items i = Some c ->
     In (p ++ [index_key i]) (flatten d)).
Proof.
  intros Hdk Hp. split; [eapply Reach_flatten; exact Hp|]. split.
  - intros Hprim q Hq Hin.
    destruct (flatten_Reach d _ Hin) as [w Hw].
    assert (Hpne : p <> []).
    { intros ->. exact (Reach_nonempty _ _ Hp). }
    destruct (Reach_split p q Hpne Hq d w Hw) as [c [Hc [Hobj Hcq]]].
    assert (c = v) by (eapply Reach_functional; eassumption). subst c.
    apply (Reach_entries _ _ _ Hcq).
    destruct v; try reflexivity; discriminate.
  - intros items i c -> Hnth.
    apply Reach_flatten with (v := c).
    eapply Reach_app; [exact Hp | reflexivity |].
    apply Reach_key. simpl. apply (indexed_from_nth items 0 i c Hnth).
Qed.

Lemma array_document_distinct_keys : distinct_keys array_document.
Proof.
  apply DK_object; [solve_NoDup|].
  intros k c [H|[H|[]]]; inversion H; subst.
  - apply DK_array. intros c [<-|[]]. apply DK_primitive; reflexivity.
  - apply DK_primitive; reflexivity.
Qed.

Lemma primitives_are_leaves_and_arrays_are_traversed_witness :
  distinct_keys array_document /\
  Reach array_document [lit "a"; lit "0"] (VString (lit "x")) /\
  In [lit "a"; lit "0"] (flatten array_document) /\
  (forall q, q <> [] ->
     ~ In ([lit "a"; lit "0"] ++ q) (flatten array_document)).
Proof.
  assert (Hr : Reach array_document [lit "a"; lit "0"] (VString (lit "x"))).
  { eapply Reach_nested; [left; reflexivity | reflexivity |].
    apply Reach_key. left; reflexivity. }
  split; [exact array_document_distinct_keys|]. split; [exact Hr|].
  destruct (primitives_are_leaves_and_arrays_are_traversed
              array_document [lit "a"; lit "0"] (VString (lit "x"))
              array_document_distinct_keys Hr) as [Hin [Hleaf _]].
  split; [exact Hin | exact (Hleaf eq_refl)].
Defined.

(** C7.  Prefix closure: whenever a tag is in the flattener's output, every
    non-empty proper prefix of it is in the output too, and stands before
    every occurrence of the tag (a parent is recorded before its
    descendants). *)
Theorem flatten_prefix_closed (d : value) (t p q : tag) :
  In t (flatten d) ->
  t = p ++ q -> p <> [] -> q <> [] ->
  In p (flatten d) /\
  (forall before after, flatten d = before ++ t :: after -> In p before).
Proof.
  intros Hin -> Hp Hq.
  assert (Hprec := flatten_precedes d p q Hp Hq).
  split; [|exact Hprec].
  destruct (in_split _ _ Hin) as [l1 [l2 Heq]].
  rewrite Heq at 1. apply in_or_app. left. exact (Hprec l1 l2 Heq).
Qed.

Lemma flatten_prefix_closed_witness :
  In [lit "button"] (flatten buttons_document) /\
  (forall before after,
     flatten buttons_document = before ++ [lit "button"; lit "send"] :: after ->
     In [lit "button"] before).
Proof.
  apply (flatten_prefix_closed buttons_document
           [lit "button"; lit "send"] [lit "button"] [lit "send"]).
  - right; left; reflexivity.
  - reflexivity.
  - discriminate.
  - discriminate.
Defined.

(** C8.  For the input
    [{"translation": {"button": {"send": "Send"}, "cancel": "Cancel"}}] the
    flattener yields the three tags [button], [button.send] and [cancel] and
    no other, and the generated union has exactly their members. *)
Theorem buttons_example :
  get_translation buttons_file = Ok buttons_document /\
  flatten buttons_document
  = [[lit "button"]; [lit "button"; lit "send"]; [lit "cancel"]] /\
  generateDeclaration (lit "en_US.json") (flatten buttons_document)
  = lit "// This file was automatically generated by running `yarn codegen-translations`" ++ NL ++
    lit "// using the language file named `en_US.json`." ++ NL ++
    lit "//" ++ NL ++
    lit "// To regenerate this file, re-execute the `yarn codegen-translations` script." ++ NL ++
    NL ++
    lit "import { TranslateOptions } from 'i18n-js';" ++ NL ++
    NL ++
    lit "declare module 'i18n-js' {" ++ NL ++
    lit "  function t(scope: ValidScope, options?: TranslateOptions): string;" ++ NL ++
    lit "}" ++ NL ++
    NL ++
    lit "type ValidScope =" ++ NL ++
    lit "  | 'button'" ++ NL ++
    lit "  | ['button']" ++ NL ++
    lit "  | 'button.send'" ++ NL ++
    lit "  | ['button', 'send']" ++ NL ++
    lit "  | 'cancel'" ++ NL ++
    lit "  | ['cancel'];" ++ NL.
Proof. repeat split; vm_compute; reflexivity. Qed.

(** ** The claims on the Tag Renderer *)

Import RenderFacts.

(** C4.  When the single-line rendering of a tag's sequence form,
    ["  | [" ++ components in quotes joined by ", " ++ "]"], is longer than
    80 code units, [generateArrayRepresentationForTag] returns the
    multi-line form, one quoted component per line, indented; otherwise it
    returns the single-line form. *)
Theorem line_length_policy (t : tag) :
  (80 < List.length (singleLine t) ->
   generateArrayRepresentationForTag t = multiLine t) /\
  (List.length (singleLine t) <= 80 ->
   generateArrayRepresentationForTag t = singleLine t).
Proof. split; [apply render_long | apply render_short]. Qed.

Lemma line_length_policy_witness :
  (80 < List.length (singleLine long_tag) /\
   generateArrayRepresentationForTag long_tag = multiLine long_tag) /\
  (List.length (singleLine [lit "a"; lit "b"]) <= 80 /\
   generateArrayRepresentationForTag [lit "a"; lit "b"]
   = singleLine [lit "a"; lit "b"]).
Proof.
  assert (Hlong : 80 < List.length (singleLine long_tag))
    by (apply Nat.ltb_lt; vm_compute; reflexivity).
  assert (Hshort : List.length (singleLine [lit "a"; lit "b"]) <= 80)
    by (apply Nat.leb_le; vm_compute; reflexivity).
  split; split.
  - exact Hlong.
  - exact (proj1 (line_length_policy long_tag) Hlong).
  - exact Hshort.
  - exact (proj2 (line_length_policy [lit "a"; lit "b"]) Hshort).
Defined.

(** C5.  For the tag [['a', 'b']], [generateTypeForTag] gives the string
    form ['a.b'] and the sequence form [['a', 'b']], each as a union
    member on its own line. *)
Theorem tag_a_b_rendering :
  generateTypeForTag [lit "a"; lit "b"]
  = NL ++ lit "  | 'a.b'" ++ NL ++ lit "  | ['a', 'b']" /\
  generateArrayRepresentationForTag [lit "a"; lit "b"]
  = lit "  | ['a', 'b']".
Proof. split; vm_compute; reflexivity. Qed.

(** C9.  The renderer escapes nothing.  The string form is the components
    joined by [.] between two single quotes, the sequence form is made of
    the components, each between two single quotes, with nothing changed
    inside; a single quote or a backslash in a component is emitted as it
    is. *)
Theorem renderer_does_not_escape :
  (forall t : tag,
     generateTypeForTag t
     = NL ++ lit "  | " ++ quoted (join (lit ".") t) ++ NL ++
       generateArrayRepresentationForTag t) /\
  (forall t : tag,
     generateArrayRepresentationForTag t = singleLine t \/
     generateArrayRepresentationForTag t = multiLine t) /\
  generateTypeForTag [lit "it's"; lit "a\b"]
  = NL ++ lit "  | 'it's.a\b'" ++ NL ++ lit "  | ['it's', 'a\b']".
Proof.
  split; [|split].
  - exact generateTypeForTag_quoted.
  - intros t.
    destruct (Nat.le_gt_cases (List.length (singleLine t)) 80) as [H|H].
    + left. apply render_short. exact H.
    + right. apply render_long. exact H.
  - vm_compute. reflexivity.
Qed.

(** ** The claim on the Orchestrator *)

Import RunFacts.

(** C2, as the claim states it, fails: [en_US.json] holds [{}], which has
    no [translation] field, and on a platform that accepts the write the
    run ends normally, having replaced the contents of the declaration file
    by a declaration with an empty union. *)
Lemma missing_translation_still_writes :
  fs_example (resolve_example (languageFilename None)) = Some (lit "{}") /\
  parse_example (lit "{}") = Ok (VObject []) /\
  no_translation_field (VObject []) /\
  fst (run read_error_example write_accepted parse_example resolve_example
         declaration_example None fs_example)
  = Ok tt /\
  snd (run read_error_example write_accepted parse_example resolve_example
         declaration_example None fs_example)
    declaration_example
  = Some (generateDeclaration (lit "en_US.json") []) /\
  snd (run read_error_example write_accepted parse_example resolve_example
         declaration_example None fs_example)
    declaration_example
  <> fs_example declaration_example.
Proof.
  split; [reflexivity|]. split; [reflexivity|].
  split; [intros []|]. split; [reflexivity|]. split; [reflexivity|].
  vm_compute. discriminate.
Qed.

(** C2, amended.  When the parsed JSON of the input file has no top-level
    [translation] field: if it is [null] the run throws a [TypeError]
    before anything is written and the file system is unchanged; if it is
    any other JSON value the missing field stops nothing: the flattener is
    given [undefined] and yields no tag, and the run calls
    [fs.writeFileSync] on the declaration file with the declaration whose
    union has no member, and ends as that call ends.  So the declaration
    file is overwritten with that text whenever the platform accepts the
    write, and the run throws the error of the write when it does not. *)
Theorem run_without_translation
  (read_error : fs -> jsstring -> error)
  (write_refused : fs -> jsstring -> jsstring -> option (error * fs))
  (JSON_parse : jsstring -> result value)
  (resolveLanguage : jsstring -> jsstring)
  (declarationFilePath : jsstring) (argv2 : option jsstring)
  (s : fs) (languageContents : jsstring) (parsed : value) :
  s (resolveLanguage (languageFilename argv2)) = Some languageContents ->
  JSON_parse languageContents = Ok parsed ->
  no_translation_field parsed ->
  (parsed = VNull ->
   run read_error write_refused JSON_parse resolveLanguage
     declarationFilePath argv2 s
   = (Throw TypeError, s)) /\
  (parsed <> VNull -> parsed <> VUndefined ->
   flatten VUndefined = [] /\
   run read_error write_refused JSON_parse resolveLanguage
     declarationFilePath argv2 s
   = writeFileSync write_refused declarationFilePath
       (generateDeclaration (languageFilename argv2) []) s /\
   (write_refused s declarationFilePath
      (generateDeclaration (languageFilename argv2) []) = None ->
    run read_error write_refused JSON_parse resolveLanguage
      declarationFilePath argv2 s
    = (Ok tt,
       written s declarationFilePath
         (generateDeclaration (languageFilename argv2) []))) /\
   (forall e s',
      write_refused s declarationFilePath
        (generateDeclaration (languageFilename argv2) []) = Some (e, s') ->
      run read_error write_refused JSON_parse resolveLanguage
        declarationFilePath argv2 s
      = (Throw e, s'))).
Proof.
  intros Hread Hparse Hno.
  rewrite run_steps, Hread, Hparse, (get_translation_missing parsed Hno).
  split.
  - intros ->. reflexivity.
  - intros Hnull Hundef.
    assert (Hgoal :
      match
        match parsed with
        | VUndefined | VNull => Throw TypeError
        | _ => Ok VUndefined
        end
      with
      | Ok languageData =>
          writeFileSync write_refused declarationFilePath
            (generateDeclaration (languageFilename argv2)
               (flatten languageData)) s
      | Throw e => (Throw e, s)
      end
      = writeFileSync write_refused declarationFilePath
          (generateDeclaration (languageFilename argv2) []) s).
    { destruct parsed; try reflexivity; contradiction. }
    rewrite Hgoal.
    split; [reflexivity|]. split; [reflexivity|]. split.
    + apply writeFileSync_accepted.
    + intros e s'. apply writeFileSync_refused.
Qed.

Lemma run_without_translation_witness :
  run read_error_example write_accepted parse_example resolve_example
    declaration_example None fs_example
  = (Ok tt,
     written fs_example declaration_example
       (generateDeclaration (lit "en_US.json") [])).
Proof.
  refine (proj1 (proj2 (proj2 (proj2 (run_without_translation
            read_error_example write_accepted
            parse_example resolve_example declaration_example None
            fs_example (lit "{}") (VObject []) _ _ _) _ _))) _).
  - reflexivity.
  - reflexivity.
  - simpl. intros [].
  - discriminate.
  - discriminate.
  - reflexivity.
Defined.

(** The same run where the directory of the declaration file does not
    exist: it throws the error of the write. *)
Example missing_translation_and_missing_directory :
  run read_error_example write_to_missing_directory parse_example
    resolve_example declaration_example None fs_example
  = (Throw (SystemError (lit "ENOENT")), fs_example).
Proof. reflexivity. Qed.

(** ** The claim on the transaction details row *)

(** C10.  [DoubleLineTransactionDetailsRow] renders the title [Text] and
    the value [Text] for every props, and the secondary-value [Text] if and
    only if [secondaryValue] is not [undefined]; what it renders is
    determined by the four props alone. *)
Theorem row_renders_secondary_iff_defined
  (ReactNode : Type) (props : Row.Props ReactNode) :
  Row.texts (Row.DoubleLineTransactionDetailsRow props)
  = [Row.titleText (Row.title props); Row.valueText (Row.value props)] ++
    match Row.secondaryValue props with
    | Some secondary => [Row.secondaryText secondary]
    | None => []
    end /\
  ((exists secondary,
      In (Row.secondaryText secondary)
         (Row.texts (Row.DoubleLineTransactionDetailsRow props)))
   <-> Row.secondaryValue props <> None) /\
  (forall props' : Row.Props ReactNode,
     Row.leftComponent props' = Row.leftComponent props ->
     Row.secondaryValue props' = Row.secondaryValue props ->
     Row.title props' = Row.title props ->
     Row.value props' = Row.value props ->
     Row.DoubleLineTransactionDetailsRow props'
     = Row.DoubleLineTransactionDetailsRow props).
Proof.
  assert (Htexts :
    Row.texts (Row.DoubleLineTransactionDetailsRow props)
    = [Row.titleText (Row.title props); Row.valueText (Row.value props)] ++
      match Row.secondaryValue props with
      | Some secondary => [Row.secondaryText secondary]
      | None => []
      end).
  { unfold Row.DoubleLineTransactionDetailsRow.
    destruct (Row.secondaryValue props); reflexivity. }
  split; [exact Htexts|]. split.
  - rewrite Htexts. destruct (Row.secondaryValue props) as [secondary|].
    + split; [discriminate|]. intros _. exists secondary.
      right; right; left; reflexivity.
    + split; [|intros H; contradiction].
      intros [secondary [H|[H|[]]]]; discriminate H.
  - intros [l' s' t' v'] Hl Hs Ht Hv. simpl in Hl, Hs, Ht, Hv.
    subst. destruct props; reflexivity.
Qed.

(** ** Further properties of the Key Flattener *)

(** X1.  [pushNestedKeysAsArrays] only appends: the tags already in
    [keysArray] stay in place, and every tag that is added is [prefixArray]
    followed by at least one key. *)
Theorem push_only_appends
  (keysArray : list tag) (object : value) (prefixArray : tag) :
  pushNestedKeysAsArrays keysArray object prefixArray
  = keysArray ++ map (app prefixArray) (flatten object) /\
  Forall (fun t => exists keys, keys <> [] /\ t = prefixArray ++ keys)
    (map (app prefixArray) (flatten object)).
Proof.
  split; [apply push_shape|].
  apply Forall_forall. intros t Hin. apply in_map_iff in Hin.
  destruct Hin as [keys [Ht Hin]]. exists keys. split; [|symmetry; exact Ht].
  intros ->. exact (flatten_nonempty _ Hin).
Qed.

(** X2.  The output is in pre-order: key by key in the order of
    [for ... in], the tag of the key, and right after it, when the key
    holds an object, an array or [null], the tags of what it holds, each
    with the key in front. *)
Theorem flatten_is_preorder (object : value) :
  flatten object
  = flat_map
      (fun kv =>
         [fst kv] ::
         (if jsstring_eqb (typeof (snd kv)) (lit "object")
          then map (cons (fst kv)) (flatten (snd kv))
          else []))
      (entries object).
Proof. apply flatten_entries. Qed.

(** X3.  On every value, the tags of the output are the paths that lead
    from the value to a key or an index, going down through objects and
    arrays only. *)
Theorem tags_are_the_reachable_paths (d : value) (t : tag) :
  In t (flatten d) <-> exists v, Reach d t v.
Proof.
  split.
  - apply flatten_Reach.
  - intros [v Hv]. eapply Reach_flatten; exact Hv.
Qed.

(** X4.  On every value whose objects hold no property name twice, arrays
    included, no tag is recorded twice. *)
Theorem no_tag_twice (d : value) :
  distinct_keys d -> NoDup (flatten d).
Proof. apply flatten_NoDup. Qed.

Lemma no_tag_twice_witness : NoDup (flatten array_document).
Proof. apply (no_tag_twice array_document). exact array_document_distinct_keys. Defined.

Lemma flat_map_block_strings (s : jsstring) :
  forall i,
    flat_map block (indexed_from i (map (fun c => VString [c]) s))
    = map (fun j => [index_key j]) (seq i (List.length s)).
Proof.
  induction s as [|c s IH]; intros i; [reflexivity|].
  cbn [map indexed_from flat_map List.length seq].
  rewrite IH. reflexivity.
Qed.

(** X5.  When the value handed to the flattener is not an object: a string
    yields one tag per code unit, named by its index; [null], [undefined],
    a boolean and a number yield no tag. *)
Theorem flatten_of_a_non_object :
  (forall s : jsstring,
     flatten (VString s)
     = map (fun i => [index_key i]) (seq 0 (List.length s))) /\
  flatten VNull = [] /\
  flatten VUndefined = [] /\
  (forall b, flatten (VBoolean b) = []) /\
  (forall x, flatten (VNumber x) = []).
Proof.
  split; [|repeat split; reflexivity].
  intros s. rewrite flatten_entries. apply flat_map_block_strings.
Qed.

(** X6.  An object all of whose values are primitives yields its keys, one
    tag of one component per key, in the order of the keys. *)
Theorem flatten_of_a_flat_object (props : list (jsstring * value)) :
  (forall k v, In (k, v) props -> is_primitive v = true) ->
  flatten (VObject props) = map (fun kv => [fst kv]) props.
Proof.
  intros H. rewrite flatten_entries. cbn [entries].
  induction props as [|[k v] props IH]; [reflexivity|].
  cbn [flat_map map]. rewrite IH by (intros k' v' Hin; apply (H k' v'); right; exact Hin).
  assert (Hv := H k v (or_introl eq_refl)).
  destruct v; try discriminate; reflexivity.
Qed.

Lemma flatten_of_a_flat_object_witness :
  flatten (VObject [(lit "send", VString (lit "Send")); (lit "none", VNull)])
  = [[lit "send"]; [lit "none"]].
Proof.
  apply (flatten_of_a_flat_object
           [(lit "send", VString (lit "Send")); (lit "none", VNull)]).
  intros k v [H|[H|[]]]; inversion H; reflexivity.
Defined.

(** X7.  Properties added at the end of an object add their tags at the end
    of the output; the tags of the properties before them are the same. *)
Theorem flatten_of_appended_properties (props more : list (jsstring * value)) :
  flatten (VObject (props ++ more))
  = flatten (VObject props) ++ flatten (VObject more).
Proof. rewrite !flatten_entries. cbn [entries]. apply flat_map_app. Qed.

(** ** Further properties of the Tag Renderer *)

Module ReadBackFacts.

Import Codegen Spec.

Lemma split_on_free (x : code_unit) (a : jsstring) :
  ~ In x a -> split_on x a = [a].
Proof.
  induction a as [|c a IH]; intros H; [reflexivity|].
  cbn [split_on].
  destruct (N.eqb_spec c x) as [->|_]; [exfalso; apply H; left; reflexivity|].
  rewrite IH by (intros Hin; apply H; right; exact Hin). reflexivity.
Qed.

Lemma split_on_app_sep (x : code_unit) (a b : jsstring) :
  ~ In x a -> split_on x (a ++ x :: b) = a :: split_on x b.
Proof.
  induction a as [|c a IH]; intros H.
  - cbn [app split_on]. rewrite N.eqb_refl. reflexivity.
  - cbn [app split_on].
    destruct (N.eqb_spec c x) as [->|_]; [exfalso; apply H; left; reflexivity|].
    rewrite IH by (intros Hin; apply H; right; exact Hin). reflexivity.
Qed.

Lemma quote_free_app (a b : jsstring) :
  quote_free a -> quote_free b -> quote_free (a ++ b).
Proof.
  unfold quote_free. intros Ha Hb Hin. apply in_app_or in Hin. tauto.
Qed.

Lemma quote_free_join (sep : jsstring) (parts : list jsstring) :
  quote_free sep -> Forall quote_free parts -> quote_free (join sep parts).
Proof.
  intros Hsep. induction 1 as [|p rest Hp Hrest IH]; [intros []|].
  destruct rest as [|q rest]; [exact Hp|].
  change (join sep (p :: q :: rest)) with (p ++ sep ++ join sep (q :: rest)).
  repeat apply quote_free_app; assumption.
Qed.

(** Both templates are: an opening, the quoted components with a separator
    between them, a closing.  When none of these holds a quote, the
    components are what stands between the quotes. *)
Lemma between_quotes_template (sep close : jsstring) (t : tag) :
  quote_free sep -> quote_free close -> Forall quote_free t ->
  forall open, quote_free open ->
    between_quotes (open ++ join sep (map quoted t) ++ close) = t.
Proof.
  intros Hsep Hclose. unfold between_quotes.
  induction 1 as [|c rest Hc Hrest IH]; intros open Hopen.
  - cbn [map join app].
    rewrite split_on_free by (apply quote_free_app; assumption).
    reflexivity.
  - destruct rest as [|c' rest].
    + cbn [map join]. unfold quoted.
      change (open ++ (39%N :: c ++ [39%N]) ++ close)
        with (open ++ 39%N :: ((c ++ [39%N]) ++ close)).
      rewrite <- app_assoc. cbn [app].
      rewrite (split_on_app_sep 39%N open _ Hopen).
      rewrite (split_on_app_sep 39%N c _ Hc).
      rewrite (split_on_free 39%N close Hclose). reflexivity.
    + change (join sep (map quoted (c :: c' :: rest)))
        with (quoted c ++ sep ++ join sep (map quoted (c' :: rest))).
      unfold quoted at 1.
      change (open ++ ((39%N :: c ++ [39%N]) ++
                sep ++ join sep (map quoted (c' :: rest))) ++ close)
        with (open ++ 39%N :: (((c ++ [39%N]) ++
                sep ++ join sep (map quoted (c' :: rest))) ++ close)).
      rewrite <- !app_assoc. cbn [app].
      rewrite (split_on_app_sep 39%N open _ Hopen).
      rewrite (split_on_app_sep 39%N c _ Hc).
      cbn [every_second]. f_equal.
      apply (IH sep Hsep).
Qed.

(** The sequence form, whichever template was taken. *)
Lemma sequence_form_shape (t : tag) :
  exists open sep close,
    quote_free open /\ quote_free sep /\ quote_free close /\
    generateArrayRepresentationForTag t
    = open ++ join sep (map quoted t) ++ close.
Proof.
  rewrite RenderFacts.generateArrayRepresentationForTag_unfold.
  destruct (List.length (singleLine t) <=? maxLineLength).
  - exists (lit "  | ["), (lit ", "), (lit "]").
    split; [literal_quote_free|]. split; [literal_quote_free|].
    split; [literal_quote_free|]. reflexivity.
  - exists (lit "  | [" ++ NL ++ lit "      "),
      (lit "," ++ NL ++ lit "      "), (NL ++ lit "    ]").
    split; [literal_quote_free|]. split; [literal_quote_free|].
    split; [literal_quote_free|]. rewrite <- !app_assoc. reflexivity.
Qed.

Lemma between_quotes_sequence_form (t : tag) :
  Forall quote_free t ->
  between_quotes (generateArrayRepresentationForTag t) = t.
Proof.
  intros Ht.
  destruct (sequence_form_shape t) as [open [sep [close [Ho [Hs [Hc ->]]]]]].
  apply between_quotes_template; assumption.
Qed.

Lemma between_quotes_type (t : tag) :
  Forall quote_free t ->
  between_quotes (generateTypeForTag t) = join (lit ".") t :: t.
Proof.
  intros Ht. rewrite RenderFacts.generateTypeForTag_quoted.
  destruct (sequence_form_shape t) as [open [sep [close [Ho [Hs [Hc ->]]]]]].
  unfold quoted at 1.
  change (NL ++ lit "  | " ++ (39%N :: join (lit ".") t ++ [39%N]) ++
          NL ++ open ++ join sep (map quoted t) ++ close)
    with ((NL ++ lit "  | ") ++ 39%N ::
          ((join (lit ".") t ++ [39%N]) ++
           NL ++ open ++ join sep (map quoted t) ++ close)).
  rewrite <- (app_assoc (join (lit ".") t)). cbn [app].
  unfold between_quotes.
  rewrite split_on_app_sep by literal_quote_free.
  rewrite split_on_app_sep
    by (apply quote_free_join; [literal_quote_free | exact Ht]).
  cbn [every_second]. f_equal.
  change (NL ++ open ++ join sep (map quoted t) ++ close)
    with ((NL ++ open) ++ join sep (map quoted t) ++ close).
  apply between_quotes_template; try assumption.
  apply quote_free_app; [literal_quote_free | exact Ho].
Qed.

End ReadBackFacts.

Import RenderFacts ReadBackFacts.

(** X8.  A tag whose components hold no single quote can be read back from
    its sequence form, single-line or multi-line: its components are what
    stands between the quotes, in order. *)
Theorem sequence_form_reads_back (t : tag) :
  Forall quote_free t ->
  between_quotes (generateArrayRepresentationForTag t) = t.
Proof. apply between_quotes_sequence_form. Qed.

Lemma long_tag_quote_free : Forall quote_free long_tag.
Proof. repeat constructor; literal_quote_free. Qed.

Lemma sequence_form_reads_back_witness :
  between_quotes (generateArrayRepresentationForTag long_tag) = long_tag.
Proof. apply (sequence_form_reads_back long_tag). exact long_tag_quote_free. Defined.

(** X9.  Two different tags whose components hold no single quote get
    different union members from [generateTypeForTag]. *)
Theorem different_tags_different_members (t1 t2 : tag) :
  Forall quote_free t1 -> Forall quote_free t2 ->
  t1 <> t2 ->
  generateTypeForTag t1 <> generateTypeForTag t2.
Proof.
  intros H1 H2 Hne Heq. apply Hne.
  apply (f_equal between_quotes) in Heq.
  rewrite (between_quotes_type t1 H1), (between_quotes_type t2 H2) in Heq.
  inversion Heq. reflexivity.
Qed.

Lemma different_tags_different_members_witness :
  generateTypeForTag [lit "a.b"] <> generateTypeForTag [lit "a"; lit "b"].
Proof.
  apply (different_tags_different_members [lit "a.b"] [lit "a"; lit "b"]).
  - repeat constructor; literal_quote_free.
  - repeat constructor; literal_quote_free.
  - discriminate.
Defined.

(** X10.  What [generateArrayRepresentationForTag] returns is at most 80
    code units long or has been split over several lines. *)
Theorem sequence_form_fits_or_is_split (t : tag) :
  List.length (generateArrayRepresentationForTag t) <= 80 \/
  In 10%N (generateArrayRepresentationForTag t).
Proof.
  rewrite generateArrayRepresentationForTag_unfold. unfold maxLineLength.
  destruct (Nat.leb_spec (List.length (singleLine t)) 80) as [Hle|Hgt].
  - left. exact Hle.
  - right. apply in_or_app. right. left. reflexivity.
Qed.




(** ** Further properties of the Orchestrator *)

Import RunFacts.

(** X12.  When the language file exists and parses to an object with a
    [translation] property, [loadLanguageJson] returns the value of that
    property and leaves the file system as it was. *)
Theorem loadLanguageJson_returns_translation
  (read_error : fs -> jsstring -> error)
  (JSON_parse : jsstring -> result value)
  (resolveLanguage : jsstring -> jsstring) (argv2 : option jsstring)
  (s : fs) (languageContents : jsstring)
  (props : list (jsstring * value)) (languageData : value) :
  s (resolveLanguage (languageFilename argv2)) = Some languageContents ->
  JSON_parse languageContents = Ok (VObject props) ->
  NoDup (map fst props) ->
  In (lit "translation", languageData) props ->
  loadLanguageJson read_error JSON_parse resolveLanguage argv2 s
  = (Ok languageData, s).
Proof.
  intros Hread Hparse Hnd Hin.
  unfold loadLanguageJson, bind, readFileSync, lift.
  rewrite Hread, Hparse. cbn [get_translation].
  rewrite (get_prop_entry props _ _ Hnd Hin). reflexivity.
Qed.

Lemma loadLanguageJson_returns_translation_witness :
  loadLanguageJson read_error_example parse_empty_translation
    resolve_example None fs_empty_translation
  = (Ok (VObject []), fs_empty_translation).
Proof.
  apply (loadLanguageJson_returns_translation read_error_example
           parse_empty_translation resolve_example None fs_empty_translation
           empty_translation_text [(lit "translation", VObject [])]).
  - reflexivity.
  - reflexivity.
  - solve_NoDup.
  - left; reflexivity.
Defined.

(** X13.  A run that throws has written nothing, unless the error is the
    one of [fs.writeFileSync] itself: when the language file cannot be
    read, when [JSON.parse] throws, and when the parsed JSON is [null] or
    [undefined], the run throws (the error of the read, the error of the
    parse, a [TypeError]) with the file system as it was; and whenever the
    run throws, the file system is as it was or the write was refused with
    that error. *)
Theorem run_throws_before_writing
  (read_error : fs -> jsstring -> error)
  (write_refused : fs -> jsstring -> jsstring -> option (error * fs))
  (JSON_parse : jsstring -> result value)
  (resolveLanguage : jsstring -> jsstring)
  (declarationFilePath : jsstring) (argv2 : option jsstring)
  (s : fs) :
  (s (resolveLanguage (languageFilename argv2)) = None ->
   run read_error write_refused JSON_parse resolveLanguage
     declarationFilePath argv2 s
   = (Throw (read_error s (resolveLanguage (languageFilename argv2))), s)) /\
  (forall languageContents e,
     s (resolveLanguage (languageFilename argv2)) = Some languageContents ->
     JSON_parse languageContents = Throw e ->
     run read_error write_refused JSON_parse resolveLanguage
       declarationFilePath argv2 s
     = (Throw e, s)) /\
  (forall languageContents parsed,
     s (resolveLanguage (languageFilename argv2)) = Some languageContents ->
     JSON_parse languageContents = Ok parsed ->
     parsed = VNull \/ parsed = VUndefined ->
     run read_error write_refused JSON_parse resolveLanguage
       declarationFilePath argv2 s
     = (Throw TypeError, s)) /\
  (forall e s',
     run read_error write_refused JSON_parse resolveLanguage
       declarationFilePath argv2 s
     = (Throw e, s') ->
     s' = s \/
     exists contents,
       write_refused s declarationFilePath contents = Some (e, s')).
Proof.
  split; [|split; [|split]].
  - intros Hread. rewrite run_steps, Hread. reflexivity.
  - intros c e Hread Hparse. rewrite run_steps, Hread, Hparse. reflexivity.
  - intros c parsed Hread Hparse [->| ->];
      rewrite run_steps, Hread, Hparse; reflexivity.
  - intros e s'. apply run_throw_unchanged_or_refused.
Qed.

(** X14.  After a run that ends normally, the declaration file holds the
    declaration generated from the tags of the [translation] value of the
    language file, and every other file is as it was before. *)
Theorem run_writes_the_declaration_only
  (read_error : fs -> jsstring -> error)
  (write_refused : fs -> jsstring -> jsstring -> option (error * fs))
  (JSON_parse : jsstring -> result value)
  (resolveLanguage : jsstring -> jsstring)
  (declarationFilePath : jsstring) (argv2 : option jsstring)
  (s s1 : fs) :
  run read_error write_refused JSON_parse resolveLanguage
    declarationFilePath argv2 s
  = (Ok tt, s1) ->
  (exists languageContents parsed languageData,
     s (resolveLanguage (languageFilename argv2)) = Some languageContents /\
     JSON_parse languageContents = Ok parsed /\
     get_translation parsed = Ok languageData /\
     s1 declarationFilePath
     = Some (generateDeclaration (languageFilename argv2)
               (flatten languageData))) /\
  (forall p, p <> declarationFilePath -> s1 p = s p).
Proof.
  intros H. apply run_ok_inv in H.
  destruct H as [c [parsed [d [Hread [Hparse [Hget ->]]]]]]. split.
  - exists c, parsed, d. repeat split; try assumption.
    apply written_same.
  - intros p Hp. apply written_other. exact Hp.
Qed.

Lemma run_writes_the_declaration_only_witness :
  (exists languageContents parsed languageData,
     fs_empty_translation (resolve_example (languageFilename None))
     = Some languageContents /\
     parse_empty_translation languageContents = Ok parsed /\
     get_translation parsed = Ok languageData /\
     snd (run read_error_example write_accepted parse_empty_translation
            resolve_example declaration_example None fs_empty_translation)
       declaration_example
     = Some (generateDeclaration (languageFilename None)
               (flatten languageData))) /\
  (forall p, p <> declaration_example ->
     snd (run read_error_example write_accepted parse_empty_translation
            resolve_example declaration_example None fs_empty_translation) p
     = fs_empty_translation p).
Proof.
  apply (run_writes_the_declaration_only read_error_example write_accepted
           parse_empty_translation resolve_example declaration_example None
           fs_empty_translation).
  reflexivity.
Defined.

(** ** A further property of the transaction details row *)

(** X15.  The row shows each of its props once and in this order: the
    left component, the title, the value and, when it is not [undefined],
    the secondary value; it shows nothing else. *)
Theorem row_shows_its_props_in_order
  (ReactNode : Type) (props : Row.Props ReactNode) :
  Row.shown (Row.DoubleLineTransactionDetailsRow props)
  = [Row.ExprNode (Row.leftComponent props);
     Row.ExprString (Row.title props);
     Row.ExprString (Row.value props)] ++
    match Row.secondaryValue props with
    | Some secondary => [Row.ExprString secondary]
    | None => []
    end.
Proof.
  unfold Row.DoubleLineTransactionDetailsRow.
  destruct (Row.secondaryValue props); reflexivity.
Qed.

(** ** Arrays of primitives and the wrapping criterion *)

Lemma flat_map_block_primitives (items : list value) :
  (forall c, In c items -> is_primitive c = true) ->
  forall i,
    flat_map block (indexed_from i items)
    = map (fun j => [index_key j]) (seq i (List.length items)).
Proof.
  induction items as [|c items IH]; intros H i; [reflexivity|].
  cbn [indexed_from flat_map List.length seq map].
  rewrite IH by (intros c' Hin; apply H; right; exact Hin).
  assert (Hc := H c (or_introl eq_refl)).
  destruct c; try discriminate; reflexivity.
Qed.

(** X16.  An array all of whose elements are primitives yields one tag per
    element, named by the decimal numeral of its index, in order. *)
Theorem flatten_of_an_array_of_primitives (items : list value) :
  (forall c, In c items -> is_primitive c = true) ->
  flatten (VArray items)
  = map (fun i => [index_key i]) (seq 0 (List.length items)).
Proof.
  intros H. rewrite flatten_entries. cbn [entries].
  apply flat_map_block_primitives. exact H.
Qed.

Lemma flatten_of_an_array_of_primitives_witness :
  flatten (VArray [VString (lit "x"); VNull; VBoolean true])
  = [[lit "0"]; [lit "1"]; [lit "2"]].
Proof.
  apply (flatten_of_an_array_of_primitives
           [VString (lit "x"); VNull; VBoolean true]).
  intros c [<-|[<-|[<-|[]]]]; reflexivity.
Defined.

Lemma length_join (sep : jsstring) (parts : list jsstring) :
  List.length (join sep parts)
  = list_sum (map (@List.length code_unit) parts)
    + List.length sep * pred (List.length parts).
Proof.
  induction parts as [|p rest IH]; [simpl; lia|].
  destruct rest as [|q rest].
  - simpl. nia.
  - change (join sep (p :: q :: rest)) with (p ++ sep ++ join sep (q :: rest)).
    rewrite !length_app, IH. simpl. nia.
Qed.

Lemma length_singleLine (t : tag) :
  t <> [] ->
  List.length (singleLine t)
  = list_sum (map (@List.length code_unit) t) + 4 * List.length t + 4.
Proof.
  intros Ht. unfold singleLine.
  rewrite !length_app, length_join, length_map.
  change (List.length (lit "  | [")) with 5.
  change (List.length (lit ", ")) with 2.
  change (List.length (lit "]")) with 1.
  assert (Hsum : list_sum (map (@List.length code_unit) (map quoted t))
                 = list_sum (map (@List.length code_unit) t)
                   + 2 * List.length t).
  { clear Ht. unfold list_sum.
    induction t as [|c t IH]; [reflexivity|].
    cbn [map fold_right]. rewrite IH. unfold quoted.
    cbn [List.length]. rewrite length_app. cbn [List.length]. lia. }
  rewrite Hsum. destruct t; [contradiction|]. cbn [List.length pred]. lia.
Qed.

(** X17.  A tag of [n >= 1] components is rendered on one line exactly when
    the lengths of its components add up to at most [76 - 4 * n]; beyond
    that it is rendered in the multi-line form. *)
Theorem wrapping_criterion (t : tag) :
  t <> [] ->
  (list_sum (map (@List.length code_unit) t) + 4 * List.length t <= 76 ->
   generateArrayRepresentationForTag t = singleLine t) /\
  (76 < list_sum (map (@List.length code_unit) t) + 4 * List.length t ->
   generateArrayRepresentationForTag t = multiLine t).
Proof.
  intros Ht. split; intros H.
  - apply render_short. rewrite (length_singleLine t Ht). lia.
  - apply render_long. rewrite (length_singleLine t Ht). lia.
Qed.

Lemma wrapping_criterion_witness :
  generateArrayRepresentationForTag long_tag = multiLine long_tag.
Proof.
  refine (proj2 (wrapping_criterion long_tag _) _).
  - discriminate.
  - apply Nat.ltb_lt. vm_compute. reflexivity.
Defined.
